(** * servo_basic.py: controlling a servo motor with CircuitPython

    A shallow embedding of [basic_operations], [servo_sweep],
    [sweep_operations] and a bounded unrolling of [main], followed by the
    properties of the sweep validation and of the commanded angle
    sequences.  [servo_sweep] is given twice: on ints and finite floats,
    and as [servo_sweep_full] on all numbers, [inf] and [nan] included;
    the two agree where both are defined.

    The program talks to the outside world through three channels only:
    [print], the assignment [servo_a.angle = ...] and [sleep].  A run is
    modelled by the list of these events, in order, together with the way
    the call ended (it returned, or a Python exception escaped). *)

From Stdlib Require Import ZArith QArith Qabs List String Bool Lia.
From ExtLib Require Import Structures.Monad.
Import ListNotations MonadNotation.
Local Open Scope Z_scope.
Local Open Scope monad_scope.

(** ** Python numbers

    The arguments of [servo_sweep] are Python numbers: an [int], or a
    [float].  A finite float is a rational number, and every operation the
    program applies to a float (comparison, [int()], and [+ 1], [-],
    [abs] on values already checked to be whole numbers between 0 and 180)
    is exact on it, so a float is modelled by its exact value in [Q].
    The distinction between the two types is kept: [range] accepts the
    first and refuses the second.  [pynum] holds the finite numbers only;
    the non-finite floats ([inf], [-inf], [nan]) are added by [pyvalue]
    below, with [servo_sweep_full], which is [servo_sweep] on all of them
    and agrees with it on [pynum]. *)

Inductive pynum : Type :=
| PyInt (z : Z)
| PyFloat (q : Q).

Definition to_Q (x : pynum) : Q :=
  match x with
  | PyInt z => inject_Z z
  | PyFloat q => q
  end.

(** [a < b], [a > b], [a != b] on finite numbers: Python compares ints and
    floats by value.  With [nan] no comparison is the complement of
    another: see [lt_full], [le_full], [ne_full]. *)
Definition py_lt (a b : pynum) : bool := negb (Qle_bool (to_Q b) (to_Q a)).
Definition py_gt (a b : pynum) : bool := py_lt b a.
Definition py_ne (a b : pynum) : bool := negb (Qeq_bool (to_Q a) (to_Q b)).

(** [int(x)] on a finite number: the identity on an int, truncation towards
    zero on a float.  On a non-finite float [int()] raises: see
    [int_full]. *)
Definition py_int (x : pynum) : pynum :=
  match x with
  | PyInt z => PyInt z
  | PyFloat q => PyInt (Z.quot (Qnum q) (Zpos (Qden q)))
  end.

(** [a + b], [a - b]: an int when both operands are ints, a float otherwise. *)
Definition py_add (a b : pynum) : pynum :=
  match a, b with
  | PyInt x, PyInt y => PyInt (x + y)
  | _, _ => PyFloat (to_Q a + to_Q b)
  end.

Definition py_sub (a b : pynum) : pynum :=
  match a, b with
  | PyInt x, PyInt y => PyInt (x - y)
  | _, _ => PyFloat (to_Q a - to_Q b)
  end.

(** [-a] and [abs(a)] keep the type of their operand. *)
Definition py_neg (a : pynum) : pynum :=
  match a with
  | PyInt x => PyInt (- x)
  | PyFloat q => PyFloat (- q)
  end.

Definition py_abs (a : pynum) : pynum :=
  match a with
  | PyInt x => PyInt (Z.abs x)
  | PyFloat q => PyFloat (Qabs q)
  end.

(** ** Events and runs *)

(** An f-string is kept as its pieces: literal text and formatted values. *)
Inductive piece : Type :=
| Lit (s : string)
| Fmt (v : pynum).

Definition fstring : Type := list piece.

Inductive event : Type :=
| EPrint (m : fstring)     (* print(m) *)
| ESetAngle (a : Z)        (* servo_a.angle = a *)
| ESleep (t : pynum).      (* sleep(t) *)

Inductive exn : Type :=
| TypeError
| ValueError
| OverflowError.

Inductive outcome (A : Type) : Type :=
| Returned (a : A)
| Raised (e : exn).

Arguments Returned {A} a.
Arguments Raised {A} e.

(** A computation: the events it performed and how it ended. *)
Definition Py (A : Type) : Type := (list event * outcome A)%type.

Definition py_ret {A : Type} (a : A) : Py A := ([], Returned a).

Definition py_bind {A B : Type} (c : Py A) (k : A -> Py B) : Py B :=
  match c with
  | (tr, Returned a) => let (tr', o) := k a in (tr ++ tr', o)
  | (tr, Raised e) => (tr, Raised e)
  end.

#[global] Instance Monad_Py : Monad Py :=
  {| ret := @py_ret; bind := @py_bind |}.

Definition emit (e : event) : Py unit := ([e], Returned tt).
Definition raise {A : Type} (e : exn) : Py A := ([], Raised e).

Definition print (m : fstring) : Py unit := emit (EPrint m).
Definition set_angle (a : Z) : Py unit := emit (ESetAngle a).
Definition sleep (t : pynum) : Py unit := emit (ESleep t).

(** [if b: c] with no [else]. *)
Definition when (b : bool) (c : Py unit) : Py unit :=
  if b then c else ret tt.

(** [for x in l: body(x)]. *)
Fixpoint for_each {A : Type} (l : list A) (body : A -> Py unit) : Py unit :=
  match l with
  | [] => ret tt
  | x :: rest => body x ;; for_each rest body
  end.

Definition trace {A : Type} (c : Py A) : list event := fst c.
Definition result {A : Type} (c : Py A) : outcome A := snd c.

(** ** The builtin [range] *)

(** An argument of [range] must be an int; a float raises [TypeError]. *)
Definition index (x : pynum) : Py Z :=
  match x with
  | PyInt z => ret z
  | PyFloat _ => raise TypeError
  end.

(** Number of items between [lo] and [hi] for a positive [step]. *)
Definition range_length (lo hi step : Z) : Z :=
  if lo <? hi then (hi - lo - 1) / step + 1 else 0.

Definition range_items (start stop step : Z) : list Z :=
  let n := if 0 <? step then range_length start stop step
           else range_length stop start (- step) in
  map (fun i => start + Z.of_nat i * step) (seq 0 (Z.to_nat n)).

Definition range (start stop step : pynum) : Py (list Z) :=
  a <- index start ;;
  b <- index stop ;;
  c <- index step ;;
  if c =? 0 then raise ValueError else ret (range_items a b c).

(** ** The program *)

Section Program.

(** The global constant [DEBUG]; the source sets it to [True]. *)
Variable DEBUG : bool.

Definition basic_operations : Py unit :=
  when DEBUG (print [Lit "Setting angle to 90 degrees."]) ;;
  set_angle 90 ;;
  sleep (PyInt 5) ;;
  when DEBUG (print [Lit "Setting angle to 0 degrees."]) ;;
  set_angle 0 ;;
  sleep (PyInt 5) ;;
  when DEBUG (print [Lit "Setting angle to 90 degrees."]) ;;
  set_angle 90 ;;
  sleep (PyInt 5) ;;
  when DEBUG (print [Lit "Setting angle to 180 degrees."]) ;;
  set_angle 180 ;;
  sleep (PyInt 5).

(** The body shared by the two [for] loops of [servo_sweep]. *)
Definition sweep_step (step_time : pynum) (angle : Z) : Py unit :=
  when DEBUG (print [Lit "Setting angle to "; Fmt (PyInt angle);
                     Lit " degrees."]) ;;
  set_angle angle ;;
  sleep step_time.

Definition servo_sweep
  (start_angle stop_angle step_angle step_time : pynum) : Py unit :=
  if py_ne start_angle (py_int start_angle)
     || py_lt start_angle (PyInt 0) || py_gt start_angle (PyInt 180)
  then
    print [Lit "ERROR: The start_angle value of "; Fmt start_angle;
           Lit " is invalid."]
  else if py_ne stop_angle (py_int stop_angle)
     || py_lt stop_angle (PyInt 0) || py_gt stop_angle (PyInt 180)
  then
    print [Lit "ERROR: The stop_angle value of "; Fmt stop_angle;
           Lit " is invalid."]
  else if py_ne step_angle (py_int step_angle)
     || py_lt step_angle (PyInt 1)
     || py_gt step_angle (py_abs (py_sub stop_angle start_angle))
  then
    print [Lit "ERROR: The step_angle value of "; Fmt step_angle;
           Lit " is invalid."]
  else if py_lt step_time (PyInt 0)
  then
    print [Lit "ERROR: The step_time value of "; Fmt step_time;
           Lit " is invalid."]
  else
    when DEBUG
      (print [Lit "Sweeping angle from "; Fmt start_angle; Lit " to ";
              Fmt stop_angle; Lit " degrees in increments of ";
              Fmt step_angle; Lit " degree(s) with a "; Fmt step_time;
              Lit " s step time."]) ;;
    if py_lt start_angle stop_angle then
      angles <- range start_angle (py_add stop_angle (PyInt 1)) step_angle ;;
      for_each angles (sweep_step step_time)
    else
      angles <- range start_angle (py_sub stop_angle (PyInt 1))
                      (py_neg step_angle) ;;
      for_each angles (sweep_step step_time).

(** The defaults [step_angle=1] and [step_time=0.015]; the latter is the
    exact value of the double nearest to 0.015. *)
Definition default_step_angle : pynum := PyInt 1.
Definition default_step_time : pynum :=
  PyFloat (1080863910568919 # 72057594037927936).

Definition sweep_operations : Py unit :=
  servo_sweep (PyInt 0) (PyInt 180) default_step_angle default_step_time ;;
  sleep (PyInt 5) ;;
  servo_sweep (PyInt 180) (PyInt 0) default_step_angle default_step_time ;;
  sleep (PyInt 5) ;;
  servo_sweep (PyInt 45) (PyInt 135) (PyInt 15) (PyInt 1) ;;
  sleep (PyInt 5) ;;
  servo_sweep (PyInt 180) (PyInt 0) (PyInt 45) (PyInt 1) ;;
  sleep (PyInt 5).

(** [main] is [while True: basic_operations()]: it never returns.  What
    it has done after [n] turns of the loop is [main_turns n]. *)
Fixpoint main_turns (n : nat) : Py unit :=
  match n with
  | O => ret tt
  | S n' => basic_operations ;; main_turns n'
  end.

End Program.

(** ** Observations on a trace *)

(** The angles commanded to the servo, in order. *)
Fixpoint commanded (tr : list event) : list Z :=
  match tr with
  | [] => []
  | ESetAngle a :: rest => a :: commanded rest
  | _ :: rest => commanded rest
  end.

(** The durations slept, in order. *)
Fixpoint sleeps (tr : list event) : list pynum :=
  match tr with
  | [] => []
  | ESleep t :: rest => t :: sleeps rest
  | _ :: rest => sleeps rest
  end.

(** The lines printed, in order. *)
Fixpoint printed (tr : list event) : list fstring :=
  match tr with
  | [] => []
  | EPrint m :: rest => m :: printed rest
  | _ :: rest => printed rest
  end.

(** The trace without its printed lines: actuations and sleeps, in order. *)
Fixpoint effects (tr : list event) : list event :=
  match tr with
  | [] => []
  | EPrint _ :: rest => effects rest
  | e :: rest => e :: effects rest
  end.

(** ** The sweep request, as the specification words it

    These definitions follow the data model of the specification, not the
    code: the four fields, their domains, and the order in which they are
    examined.  The theorems below compare them with [servo_sweep]. *)

Inductive field : Type :=
| F_start_angle
| F_stop_angle
| F_step_angle
| F_step_time.

Definition field_name (f : field) : string :=
  match f with
  | F_start_angle => "start_angle"
  | F_stop_angle => "stop_angle"
  | F_step_angle => "step_angle"
  | F_step_time => "step_time"
  end.

Definition field_value (f : field) (start stop step delay : pynum) : pynum :=
  match f with
  | F_start_angle => start
  | F_stop_angle => stop
  | F_step_angle => step
  | F_step_time => delay
  end.

(** The diagnostic for an offending field: it names the field and shows
    the value. *)
Definition error_message (f : field) (v : pynum) : fstring :=
  [Lit ("ERROR: The " ++ field_name f ++ " value of "); Fmt v;
   Lit " is invalid."].

Definition py_le (a b : pynum) : bool := Qle_bool (to_Q a) (to_Q b).

(** No fractional part. *)
Definition whole (x : pynum) : bool := Qeq_bool (to_Q x) (to_Q (py_int x)).

(** Integer degrees in [0, 180]. *)
Definition angle_in_domain (x : pynum) : bool :=
  whole x && py_le (PyInt 0) x && py_le x (PyInt 180).

(** Integer degrees in [1, |stop - start|]. *)
Definition step_in_domain (start stop step : pynum) : bool :=
  whole step && py_le (PyInt 1) step
  && py_le step (py_abs (py_sub stop start)).

(** Non-negative seconds. *)
Definition delay_in_domain (delay : pynum) : bool := py_le (PyInt 0) delay.

(** The first field, in the order start, stop, step, delay, that is
    outside its domain. *)
Definition first_invalid (start stop step delay : pynum) : option field :=
  if negb (angle_in_domain start) then Some F_start_angle
  else if negb (angle_in_domain stop) then Some F_stop_angle
  else if negb (step_in_domain start stop step) then Some F_step_angle
  else if negb (delay_in_domain delay) then Some F_step_time
  else None.

(** At least one field is outside its domain. *)
Definition some_invalid (start stop step delay : pynum) : bool :=
  negb (angle_in_domain start) || negb (angle_in_domain stop)
  || negb (step_in_domain start stop step) || negb (delay_in_domain delay).

(** A run that was rejected because of field [f]: one diagnostic about
    that field and its value, nothing else, and a normal return. *)
Definition rejected_for (f : field) (start stop step delay : pynum)
  (run : Py unit) : Prop :=
  run = ([EPrint (error_message f (field_value f start stop step delay))],
         Returned tt).

(** A valid request whose angles and step are ints. *)
Definition valid_request (start stop step : Z) (delay : pynum) : Prop :=
  0 <= start <= 180 /\ 0 <= stop <= 180
  /\ 1 <= step <= Z.abs (stop - start)
  /\ delay_in_domain delay = true.

(** The angles a valid sweep walks through. *)
Definition sweep_angles (start stop step : Z) : list Z :=
  if start <? stop then range_items start (stop + 1) step
  else range_items start (stop - 1) (- step).

(** The events of one turn of the sweep loop. *)
Definition step_events (DEBUG : bool) (step_time : pynum) (angle : Z)
  : list event :=
  (if DEBUG
   then [EPrint [Lit "Setting angle to "; Fmt (PyInt angle); Lit " degrees."]]
   else [])
  ++ [ESetAngle angle; ESleep step_time].

(** The line that announces a sweep. *)
Definition sweep_banner (start stop step delay : pynum) : fstring :=
  [Lit "Sweeping angle from "; Fmt start; Lit " to "; Fmt stop;
   Lit " degrees in increments of "; Fmt step; Lit " degree(s) with a ";
   Fmt delay; Lit " s step time."].

(** Consecutive elements of [l] are related by [R]. *)
Definition consecutive (R : Z -> Z -> Prop) (l : list Z) : Prop :=
  forall i a b, nth_error l i = Some a -> nth_error l (S i) = Some b ->
                R a b.

(** The arithmetic progression of [n] terms from [a] with difference [d]. *)
Definition progression (a d : Z) (n : nat) : list Z :=
  map (fun i => a + Z.of_nat i * d) (seq 0 n).

(** A number of type [float]. *)
Definition is_float (x : pynum) : bool :=
  match x with
  | PyInt _ => false
  | PyFloat _ => true
  end.

(** The line a turn of the sweep loop prints when [DEBUG] is set. *)
Definition debug_line (angle : Z) : fstring :=
  [Lit "Setting angle to "; Fmt (PyInt angle); Lit " degrees."].

(** ** All Python numbers: the non-finite floats

    A caller can also pass [float('inf')], [float('-inf')] and
    [float('nan')].  On these [int()] raises ([OverflowError] on an
    infinity, [ValueError] on [nan]); every ordering comparison with [nan]
    is false and [!=] with [nan] is true.  Arithmetic on them follows the
    floats; the program only computes with operands it has already checked
    to lie between 0 and 180. *)

Inductive pyvalue : Type :=
| Num (x : pynum)          (* an int or a finite float *)
| Inf (negative : bool)    (* float('inf'), float('-inf') *)
| NaN.                     (* float('nan') *)

(** [int(v)]. *)
Definition int_full (v : pyvalue) : Py pynum :=
  match v with
  | Num x => ret (py_int x)
  | Inf _ => raise OverflowError
  | NaN => raise ValueError
  end.

(** [a < b]. *)
Definition lt_full (a b : pyvalue) : bool :=
  match a with
  | NaN => false
  | Num x =>
      match b with
      | NaN => false
      | Num y => py_lt x y
      | Inf negative => negb negative
      end
  | Inf true =>
      match b with
      | NaN => false
      | Num _ => true
      | Inf negative => negb negative
      end
  | Inf false => false
  end.

(** [a > b]. *)
Definition gt_full (a b : pyvalue) : bool := lt_full b a.

(** [a <= b]. *)
Definition le_full (a b : pyvalue) : bool :=
  match a with
  | NaN => false
  | Num x =>
      match b with
      | NaN => false
      | Num y => py_le x y
      | Inf negative => negb negative
      end
  | Inf true =>
      match b with
      | NaN => false
      | _ => true
      end
  | Inf false =>
      match b with
      | Inf false => true
      | _ => false
      end
  end.

(** [a != b]. *)
Definition ne_full (a b : pyvalue) : bool :=
  match a, b with
  | Num x, Num y => py_ne x y
  | Inf n1, Inf n2 => xorb n1 n2
  | _, _ => true
  end.

(** [a + b], [a - b], [-a], [abs(a)]. *)
Definition add_full (a b : pyvalue) : pyvalue :=
  match a, b with
  | NaN, _ | _, NaN => NaN
  | Num x, Num y => Num (py_add x y)
  | Inf n1, Inf n2 => if xorb n1 n2 then NaN else Inf n1
  | Inf n1, Num _ => Inf n1
  | Num _, Inf n2 => Inf n2
  end.

Definition neg_full (a : pyvalue) : pyvalue :=
  match a with
  | Num x => Num (py_neg x)
  | Inf negative => Inf (negb negative)
  | NaN => NaN
  end.

Definition sub_full (a b : pyvalue) : pyvalue :=
  match a, b with
  | Num x, Num y => Num (py_sub x y)
  | _, _ => add_full a (neg_full b)
  end.

Definition abs_full (a : pyvalue) : pyvalue :=
  match a with
  | Num x => Num (py_abs x)
  | Inf _ => Inf false
  | NaN => NaN
  end.

(** A value formatted in an f-string: a non-finite float shows as the text
    [inf], [-inf] or [nan]. *)
Definition fmt_full (v : pyvalue) : piece :=
  match v with
  | Num x => Fmt x
  | Inf false => Lit "inf"
  | Inf true => Lit "-inf"
  | NaN => Lit "nan"
  end.

(** An argument of [range]: any float, finite or not, raises [TypeError]. *)
Definition index_full (v : pyvalue) : Py Z :=
  match v with
  | Num x => index x
  | _ => raise TypeError
  end.

Definition range_full (start stop step : pyvalue) : Py (list Z) :=
  a <- index_full start ;;
  b <- index_full stop ;;
  c <- index_full step ;;
  if c =? 0 then raise ValueError else ret (range_items a b c).

Section ProgramFull.

Variable DEBUG : bool.

(** What [sleep] does with a non-finite duration is decided by the host's
    [time] module, not by the program: it is left open. *)
Variable host_sleep : pyvalue -> Py unit.

Definition sleep_full (t : pyvalue) : Py unit :=
  match t with
  | Num x => sleep x
  | _ => host_sleep t
  end.

Definition sweep_step_full (step_time : pyvalue) (angle : Z) : Py unit :=
  when DEBUG (print [Lit "Setting angle to "; Fmt (PyInt angle);
                     Lit " degrees."]) ;;
  set_angle angle ;;
  sleep_full step_time.

(** [servo_sweep] on all numbers.  Each of the first three checks begins
    by evaluating [int()] of its field, which may raise. *)
Definition servo_sweep_full
  (start_angle stop_angle step_angle step_time : pyvalue) : Py unit :=
  i <- int_full start_angle ;;
  if ne_full start_angle (Num i)
     || lt_full start_angle (Num (PyInt 0))
     || gt_full start_angle (Num (PyInt 180))
  then
    print [Lit "ERROR: The start_angle value of "; fmt_full start_angle;
           Lit " is invalid."]
  else
    j <- int_full stop_angle ;;
    if ne_full stop_angle (Num j)
       || lt_full stop_angle (Num (PyInt 0))
       || gt_full stop_angle (Num (PyInt 180))
    then
      print [Lit "ERROR: The stop_angle value of "; fmt_full stop_angle;
             Lit " is invalid."]
    else
      k <- int_full step_angle ;;
      if ne_full step_angle (Num k)
         || lt_full step_angle (Num (PyInt 1))
         || gt_full step_angle (abs_full (sub_full stop_angle start_angle))
      then
        print [Lit "ERROR: The step_angle value of "; fmt_full step_angle;
               Lit " is invalid."]
      else if lt_full step_time (Num (PyInt 0))
      then
        print [Lit "ERROR: The step_time value of "; fmt_full step_time;
               Lit " is invalid."]
      else
        when DEBUG
          (print [Lit "Sweeping angle from "; fmt_full start_angle;
                  Lit " to "; fmt_full stop_angle;
                  Lit " degrees in increments of "; fmt_full step_angle;
                  Lit " degree(s) with a "; fmt_full step_time;
                  Lit " s step time."]) ;;
        if lt_full start_angle stop_angle then
          angles <- range_full start_angle
                      (add_full stop_angle (Num (PyInt 1))) step_angle ;;
          for_each angles (sweep_step_full step_time)
        else
          angles <- range_full start_angle
                      (sub_full stop_angle (Num (PyInt 1)))
                      (neg_full step_angle) ;;
          for_each angles (sweep_step_full step_time).

End ProgramFull.

(** How a call ends, read field by field in the order of the checks: a
    [nan] or an infinity met by [int()] raises; a field outside its domain
    ends the call with a return; when every check has passed, a float among
    the angles and the step makes [range] raise.  The delay is finite. *)
Definition sweep_ending (start stop step : pyvalue) (delay : pynum)
  : outcome unit :=
  match start with
  | NaN => Raised ValueError
  | Inf _ => Raised OverflowError
  | Num s =>
      if negb (angle_in_domain s) then Returned tt else
      match stop with
      | NaN => Raised ValueError
      | Inf _ => Raised OverflowError
      | Num e =>
          if negb (angle_in_domain e) then Returned tt else
          match step with
          | NaN => Raised ValueError
          | Inf _ => Raised OverflowError
          | Num k =>
              if negb (step_in_domain s e k) then Returned tt
              else if negb (delay_in_domain delay) then Returned tt
              else if is_float s || is_float e || is_float k
                   then Raised TypeError
                   else Returned tt
          end
      end
  end.

(** ** Numbers: comparisons between ints *)

Lemma Qle_bool_inject (a b : Z) :
  Qle_bool (inject_Z a) (inject_Z b) = (a <=? b).
Proof.
  unfold Qle_bool, inject_Z. simpl. now rewrite !Z.mul_1_r.
Qed.

Lemma Qeq_bool_inject (a b : Z) :
  Qeq_bool (inject_Z a) (inject_Z b) = (a =? b).
Proof.
  unfold Qeq_bool, inject_Z. simpl. rewrite !Z.mul_1_r.
  destruct (Z.eqb_spec a b) as [->|Hne].
  - destruct (Z.eq_dec b b); [reflexivity | contradiction].
  - destruct (Z.eq_dec a b); [contradiction | reflexivity].
Qed.

Lemma py_le_int (a b : Z) : py_le (PyInt a) (PyInt b) = (a <=? b).
Proof. apply Qle_bool_inject. Qed.

Lemma py_lt_int (a b : Z) : py_lt (PyInt a) (PyInt b) = (a <? b).
Proof.
  unfold py_lt. simpl. rewrite Qle_bool_inject. symmetry. apply Z.ltb_antisym.
Qed.

Lemma whole_int (z : Z) : whole (PyInt z) = true.
Proof. unfold whole. simpl. rewrite Qeq_bool_inject. apply Z.eqb_refl. Qed.

(** ** Runs: sequencing and observations *)

Lemma bind_ret_l {A B : Type} (a : A) (k : A -> Py B) :
  bind (ret a) k = k a.
Proof. simpl. unfold py_bind, py_ret. now destruct (k a). Qed.

Lemma bind_run {A B : Type} (tr : list event) (a : A) (k : A -> Py B) :
  bind ((tr, Returned a) : Py A) k = (tr ++ trace (k a), result (k a)).
Proof. simpl. unfold trace, result. now destruct (k a). Qed.

Lemma when_run (b : bool) (m : fstring) :
  when b (print m) = ((if b then [EPrint m] else []), Returned tt).
Proof. now destruct b. Qed.

Lemma commanded_app (l1 l2 : list event) :
  commanded (l1 ++ l2) = commanded l1 ++ commanded l2.
Proof.
  induction l1 as [|e l1 IH]; [reflexivity|].
  destruct e; simpl; now rewrite IH.
Qed.

Lemma sleeps_app (l1 l2 : list event) :
  sleeps (l1 ++ l2) = sleeps l1 ++ sleeps l2.
Proof.
  induction l1 as [|e l1 IH]; [reflexivity|].
  destruct e; simpl; now rewrite IH.
Qed.

Lemma printed_app (l1 l2 : list event) :
  printed (l1 ++ l2) = printed l1 ++ printed l2.
Proof.
  induction l1 as [|e l1 IH]; [reflexivity|].
  destruct e; simpl; now rewrite IH.
Qed.

Lemma effects_app (l1 l2 : list event) :
  effects (l1 ++ l2) = effects l1 ++ effects l2.
Proof.
  induction l1 as [|e l1 IH]; [reflexivity|].
  destruct e; simpl; now rewrite IH.
Qed.

(** The sweep loop over any list of angles: it performs the events of each
    turn in order and returns. *)
Lemma for_each_sweep_step (d : bool) (t : pynum) (l : list Z) :
  for_each l (sweep_step d t) = (flat_map (step_events d t) l, Returned tt).
Proof.
  induction l as [|a l IH]; [reflexivity|].
  destruct d; simpl in *; unfold py_bind in *; simpl; now rewrite IH.
Qed.

Lemma commanded_steps (d : bool) (t : pynum) (l : list Z) :
  commanded (flat_map (step_events d t) l) = l.
Proof.
  induction l as [|a l IH]; [reflexivity|].
  cbn [flat_map]. rewrite commanded_app, IH. now destruct d.
Qed.

Lemma sleeps_steps (d : bool) (t : pynum) (l : list Z) :
  sleeps (flat_map (step_events d t) l) = map (fun _ => t) l.
Proof.
  induction l as [|a l IH]; [reflexivity|].
  cbn [flat_map map]. rewrite sleeps_app, IH. now destruct d.
Qed.

Lemma effects_steps (d : bool) (t : pynum) (l : list Z) :
  effects (flat_map (step_events d t) l)
  = flat_map (fun a => [ESetAngle a; ESleep t]) l.
Proof.
  induction l as [|a l IH]; [reflexivity|].
  cbn [flat_map]. rewrite effects_app, IH. now destruct d.
Qed.


(** ** Validation: the guards of [servo_sweep] and the domains *)

Lemma guard_angle (x : pynum) :
  py_ne x (py_int x) || py_lt x (PyInt 0) || py_gt x (PyInt 180)
  = negb (angle_in_domain x).
Proof.
  unfold angle_in_domain, whole, py_ne, py_gt, py_lt, py_le.
  now rewrite !negb_andb.
Qed.

Lemma guard_step (start stop step : pynum) :
  py_ne step (py_int step) || py_lt step (PyInt 1)
  || py_gt step (py_abs (py_sub stop start))
  = negb (step_in_domain start stop step).
Proof.
  unfold step_in_domain, whole, py_ne, py_gt, py_lt, py_le.
  now rewrite !negb_andb.
Qed.

Lemma guard_delay (delay : pynum) :
  py_lt delay (PyInt 0) = negb (delay_in_domain delay).
Proof. reflexivity. Qed.

Lemma some_invalid_first (s e st t : pynum) :
  some_invalid s e st t = true <-> exists f, first_invalid s e st t = Some f.
Proof.
  unfold some_invalid, first_invalid.
  destruct (angle_in_domain s), (angle_in_domain e),
    (step_in_domain s e st), (delay_in_domain t); simpl;
    split; intros H; try reflexivity; try discriminate; eauto;
    destruct H as [f H]; discriminate.
Qed.

(** A request with a field outside its domain is rejected for the first
    such field, whatever the debug flag. *)
Lemma servo_sweep_rejects (d : bool) (s e st t : pynum) (f : field) :
  first_invalid s e st t = Some f ->
  rejected_for f s e st t (servo_sweep d s e st t).
Proof.
  unfold first_invalid, rejected_for, servo_sweep.
  rewrite !guard_angle, guard_step, guard_delay.
  destruct (angle_in_domain s); simpl; [|intros [= <-]; reflexivity].
  destruct (angle_in_domain e); simpl; [|intros [= <-]; reflexivity].
  destruct (step_in_domain s e st); simpl; [|intros [= <-]; reflexivity].
  destruct (delay_in_domain t); simpl; [|intros [= <-]; reflexivity].
  discriminate.
Qed.

(** A request with every field in its domain reaches the sweep proper. *)
Lemma servo_sweep_accepts (d : bool) (s e st t : pynum) :
  first_invalid s e st t = None ->
  servo_sweep d s e st t
  = (when d (print (sweep_banner s e st t)) ;;
     if py_lt s e then
       angles <- range s (py_add e (PyInt 1)) st ;;
       for_each angles (sweep_step d t)
     else
       angles <- range s (py_sub e (PyInt 1)) (py_neg st) ;;
       for_each angles (sweep_step d t)).
Proof.
  unfold first_invalid, servo_sweep.
  rewrite !guard_angle, guard_step, guard_delay.
  destruct (angle_in_domain s); simpl; [|discriminate].
  destruct (angle_in_domain e); simpl; [|discriminate].
  destruct (step_in_domain s e st); simpl; [|discriminate].
  destruct (delay_in_domain t); simpl; [|discriminate].
  reflexivity.
Qed.

Lemma angle_in_domain_int (z : Z) :
  angle_in_domain (PyInt z) = true <-> 0 <= z <= 180.
Proof.
  unfold angle_in_domain. rewrite whole_int, !py_le_int. simpl.
  rewrite andb_true_iff, !Z.leb_le. tauto.
Qed.

Lemma step_in_domain_int (s e k : Z) :
  step_in_domain (PyInt s) (PyInt e) (PyInt k) = true
  <-> 1 <= k <= Z.abs (e - s).
Proof.
  unfold step_in_domain. rewrite whole_int. simpl py_abs.
  rewrite !py_le_int. simpl.
  rewrite andb_true_iff, !Z.leb_le. tauto.
Qed.

Lemma first_invalid_int (s e k : Z) (t : pynum) :
  first_invalid (PyInt s) (PyInt e) (PyInt k) t = None
  <-> valid_request s e k t.
Proof.
  unfold first_invalid, valid_request.
  rewrite <- !angle_in_domain_int, <- step_in_domain_int.
  destruct (angle_in_domain (PyInt s)), (angle_in_domain (PyInt e)),
    (step_in_domain (PyInt s) (PyInt e) (PyInt k)), (delay_in_domain t);
    simpl; split; intros H; try reflexivity; try discriminate;
    try tauto; destruct H as (H1 & H2 & H3 & H4); discriminate.
Qed.

(** [range] on ints with a non-zero step returns its items. *)
Lemma range_int (a b c : Z) :
  c <> 0 -> range (PyInt a) (PyInt b) (PyInt c) = ret (range_items a b c).
Proof.
  intros Hc. unfold range. simpl. unfold py_bind, py_ret. simpl.
  destruct (Z.eqb_spec c 0); [contradiction | reflexivity].
Qed.

(** [range] refuses a float in any position before producing anything. *)
Lemma range_float (a b c : pynum) :
  (forall z, a <> PyInt z) \/ (forall z, b <> PyInt z)
  \/ (forall z, c <> PyInt z) ->
  range a b c = raise TypeError.
Proof.
  intros H. destruct a as [x|x], b as [y|y], c as [z|z]; try reflexivity.
  destruct H as [H|[H|H]]; [elim (H x) | elim (H y) | elim (H z)]; reflexivity.
Qed.

(** The whole run of a valid request with int angles and step. *)
Lemma servo_sweep_valid (d : bool) (s e k : Z) (t : pynum) :
  valid_request s e k t ->
  servo_sweep d (PyInt s) (PyInt e) (PyInt k) t
  = ((if d then [EPrint (sweep_banner (PyInt s) (PyInt e) (PyInt k) t)]
      else [])
     ++ flat_map (step_events d t) (sweep_angles s e k), Returned tt).
Proof.
  intros Hv. rewrite servo_sweep_accepts by now apply first_invalid_int.
  destruct Hv as (_ & _ & Hk & _).
  rewrite when_run, bind_run, py_lt_int. unfold sweep_angles.
  simpl py_add. simpl py_sub. simpl py_neg.
  destruct (s <? e);
    rewrite range_int by lia;
    rewrite bind_ret_l, for_each_sweep_step; reflexivity.
Qed.

(** ** The angles of a sweep form an arithmetic progression *)

Lemma nth_error_progression (a d : Z) (n i : nat) :
  nth_error (progression a d n) i
  = if (i <? n)%nat then Some (a + Z.of_nat i * d) else None.
Proof.
  unfold progression. rewrite nth_error_map, nth_error_seq.
  now destruct (i <? n)%nat.
Qed.

Lemma progression_consecutive (a d : Z) (n : nat) :
  consecutive (fun x y => y = x + d) (progression a d n).
Proof.
  intros i x y. rewrite !nth_error_progression, Nat2Z.inj_succ.
  destruct (i <? n)%nat; [|discriminate].
  destruct (S i <? n)%nat; [|discriminate].
  intros Hx Hy. injection Hx as <-. injection Hy as <-. ring.
Qed.

Lemma progression_head (a d : Z) (n : nat) :
  (0 < n)%nat -> hd_error (progression a d n) = Some a.
Proof.
  destruct n as [|n]; [lia|]. intros _. unfold progression. simpl.
  f_equal. lia.
Qed.

Lemma progression_In (a d : Z) (n : nat) (x : Z) :
  In x (progression a d n) ->
  exists i, 0 <= i < Z.of_nat n /\ x = a + i * d.
Proof.
  unfold progression. rewrite in_map_iff. intros (i & <- & Hi).
  apply in_seq in Hi. exists (Z.of_nat i). split; [lia | reflexivity].
Qed.

Lemma sweep_angles_up (s e k : Z) :
  s < e -> 1 <= k ->
  sweep_angles s e k = progression s k (Z.to_nat ((e - s) / k + 1)).
Proof.
  intros Hse Hk. unfold sweep_angles, range_items, range_length, progression.
  destruct (Z.ltb_spec s e); [|lia].
  destruct (Z.ltb_spec 0 k); [|lia].
  destruct (Z.ltb_spec s (e + 1)); [|lia].
  now replace (e + 1 - s - 1) with (e - s) by lia.
Qed.

Lemma sweep_angles_down (s e k : Z) :
  e < s -> 1 <= k ->
  sweep_angles s e k = progression s (- k) (Z.to_nat ((s - e) / k + 1)).
Proof.
  intros Hse Hk. unfold sweep_angles, range_items, range_length, progression.
  destruct (Z.ltb_spec s e); [lia|].
  destruct (Z.ltb_spec 0 (- k)); [lia|].
  destruct (Z.ltb_spec (e - 1) s); [|lia].
  rewrite Z.opp_involutive.
  now replace (s - (e - 1) - 1) with (s - e) by lia.
Qed.

(** How many angles a sweep visits: at least one. *)
Lemma sweep_count_pos (span k : Z) :
  0 <= span -> 1 <= k -> (0 < Z.to_nat (span / k + 1))%nat.
Proof.
  intros Hs Hk. assert (0 <= span / k) by (apply Z.div_pos; lia). lia.
Qed.

(** No term of the progression steps past the span. *)
Lemma sweep_reach (span k i : Z) :
  0 <= span -> 1 <= k ->
  0 <= i < Z.of_nat (Z.to_nat (span / k + 1)) -> 0 <= i * k <= span.
Proof.
  intros Hs Hk Hi.
  assert (H0 : 0 <= span / k) by (apply Z.div_pos; lia).
  assert (Hm : k * (span / k) <= span) by (apply Z.mul_div_le; lia).
  rewrite Z2Nat.id in Hi by lia. nia.
Qed.

Lemma sweep_angles_between (s e k : Z) :
  1 <= k <= Z.abs (e - s) ->
  Forall (fun a => Z.min s e <= a <= Z.max s e) (sweep_angles s e k).
Proof.
  intros Hk. apply Forall_forall. intros x Hx.
  destruct (Z.lt_trichotomy s e) as [Hlt|[Heq|Hgt]]; [| lia |].
  - rewrite sweep_angles_up in Hx by lia.
    apply progression_In in Hx. destruct Hx as (i & Hi & ->).
    pose proof (sweep_reach (e - s) k i). lia.
  - rewrite sweep_angles_down in Hx by lia.
    apply progression_In in Hx. destruct Hx as (i & Hi & ->).
    pose proof (sweep_reach (s - e) k i). nia.
Qed.

(** Every accepted request either has int angles and an int step, or
    makes [range] raise before the first actuation. *)
Lemma servo_sweep_accepted_run (d : bool) (s e st t : pynum) :
  first_invalid s e st t = None ->
  (exists a b k, s = PyInt a /\ e = PyInt b /\ st = PyInt k
                 /\ valid_request a b k t)
  \/ servo_sweep d s e st t
     = ((if d then [EPrint (sweep_banner s e st t)] else []),
        Raised TypeError).
Proof.
  intros Hok.
  destruct s as [a|qa], e as [b|qb], st as [k|qk];
    [left; exists a, b, k; repeat split; try reflexivity;
     apply first_invalid_int in Hok; apply Hok | right ..];
    rewrite servo_sweep_accepts by exact Hok;
    rewrite when_run, bind_run;
    match goal with |- context [py_lt ?x ?y] => destruct (py_lt x y) end;
    cbn; now rewrite app_nil_r.
Qed.

(** A rejected run neither actuates nor sleeps, and prints one line. *)
Lemma rejected_for_quiet (f : field) (s e st t : pynum) (run : Py unit) :
  rejected_for f s e st t run ->
  commanded (trace run) = [] /\ sleeps (trace run) = []
  /\ printed (trace run) = [error_message f (field_value f s e st t)].
Proof. unfold rejected_for. intros ->. repeat split. Qed.

(** The angles commanded by a valid request with int angles and step. *)
Lemma commanded_valid (d : bool) (s e k : Z) (t : pynum) :
  valid_request s e k t ->
  commanded (trace (servo_sweep d (PyInt s) (PyInt e) (PyInt k) t))
  = sweep_angles s e k.
Proof.
  intros Hv. rewrite servo_sweep_valid by exact Hv. unfold trace. cbn [fst].
  rewrite commanded_app, commanded_steps. now destruct d.
Qed.

(** In a valid sweep every commanded angle is followed by one sleep of
    the step time, and nothing else happens between the printed lines. *)
Lemma effects_valid (d : bool) (s e k : Z) (t : pynum) :
  valid_request s e k t ->
  effects (trace (servo_sweep d (PyInt s) (PyInt e) (PyInt k) t))
  = flat_map (fun a => [ESetAngle a; ESleep t]) (sweep_angles s e k)
  /\ sleeps (trace (servo_sweep d (PyInt s) (PyInt e) (PyInt k) t))
     = map (fun _ => t) (sweep_angles s e k).
Proof.
  intros Hv. rewrite servo_sweep_valid by exact Hv. unfold trace. cbn [fst].
  rewrite effects_app, sleeps_app, effects_steps, sleeps_steps.
  now destruct d.
Qed.

(** ** The claims *)

(** C1 (as the code has it): for every integer [a] in [0, 180], the call
    [servo_sweep(a, a, 1, 0)] is rejected by the step check, because the
    step 1 exceeds [|a - a| = 0]: the only event is the diagnostic for
    [step_angle], and no angle is commanded. *)
Theorem sweep_same_angle_rejected (d : bool) (a : Z) :
  0 <= a <= 180 ->
  rejected_for F_step_angle (PyInt a) (PyInt a) (PyInt 1) (PyInt 0)
    (servo_sweep d (PyInt a) (PyInt a) (PyInt 1) (PyInt 0))
  /\ commanded (trace (servo_sweep d (PyInt a) (PyInt a) (PyInt 1) (PyInt 0)))
     = [].
Proof.
  intros Ha.
  assert (Hf : first_invalid (PyInt a) (PyInt a) (PyInt 1) (PyInt 0)
               = Some F_step_angle).
  { unfold first_invalid.
    rewrite (proj2 (angle_in_domain_int a) Ha). simpl.
    destruct (step_in_domain (PyInt a) (PyInt a) (PyInt 1)) eqn:Hs;
      [|reflexivity].
    apply step_in_domain_int in Hs. lia. }
  pose proof (servo_sweep_rejects d _ _ _ _ _ Hf) as Hr.
  split; [exact Hr | now apply rejected_for_quiet in Hr].
Qed.

Lemma sweep_same_angle_rejected_witness :
  0 <= 90 <= 180
  /\ rejected_for F_step_angle (PyInt 90) (PyInt 90) (PyInt 1) (PyInt 0)
       (servo_sweep true (PyInt 90) (PyInt 90) (PyInt 1) (PyInt 0)).
Proof.
  split; [lia | apply (sweep_same_angle_rejected true 90); lia].
Defined.

(** C1 as stated fails: [servo_sweep(90, 90, 1, 0)] does not command the
    single angle 90. *)
Lemma sweep_same_angle_counterexample :
  commanded (trace (servo_sweep true (PyInt 90) (PyInt 90) (PyInt 1) (PyInt 0)))
  <> [90].
Proof. vm_compute. discriminate. Qed.

(** C2 (as the code has it): [servo_sweep(180, 0, 45, 1)] commands exactly
    180, 135, 90, 45, 0; the last commanded angle is the stop angle 0. *)
Theorem sweep_180_0_by_45 (d : bool) :
  commanded (trace (servo_sweep d (PyInt 180) (PyInt 0) (PyInt 45) (PyInt 1)))
  = [180; 135; 90; 45; 0]
  /\ last (commanded
             (trace (servo_sweep d (PyInt 180) (PyInt 0) (PyInt 45) (PyInt 1))))
          180 = 0.
Proof. destruct d; vm_compute; split; reflexivity. Qed.

(** C2 as stated fails: the commanded sequence is not 180, 135, 90, 45. *)
Lemma sweep_180_0_by_45_counterexample :
  commanded (trace (servo_sweep true (PyInt 180) (PyInt 0) (PyInt 45) (PyInt 1)))
  <> [180; 135; 90; 45].
Proof. vm_compute. discriminate. Qed.

(** C3: for every valid request, the call returns; when [start < stop] the
    commanded angles begin at [start], each next one is the previous plus
    [step], they strictly increase, and all lie in [start, stop]; when
    [start > stop] they begin at [start], each next one is the previous
    minus [step], they strictly decrease, and all lie in [stop, start]. *)
Theorem sweep_monotone (d : bool) (start stop step : Z) (delay : pynum) :
  valid_request start stop step delay ->
  let run := servo_sweep d (PyInt start) (PyInt stop) (PyInt step) delay in
  let angles := commanded (trace run) in
  result run = Returned tt
  /\ hd_error angles = Some start
  /\ (start < stop ->
      consecutive (fun a b => b = a + step) angles
      /\ consecutive (fun a b => a < b) angles
      /\ Forall (fun a => start <= a <= stop) angles)
  /\ (start > stop ->
      consecutive (fun a b => b = a - step) angles
      /\ consecutive (fun a b => a > b) angles
      /\ Forall (fun a => stop <= a <= start) angles).
Proof.
  intros Hv run angles. subst run angles.
  rewrite commanded_valid by exact Hv.
  rewrite servo_sweep_valid by exact Hv.
  destruct Hv as (_ & _ & Hk & _).
  pose proof (sweep_angles_between start stop step Hk) as Hb.
  split; [reflexivity|]. split.
  - destruct (Z.lt_trichotomy start stop) as [H|[H|H]]; [| lia |].
    + rewrite sweep_angles_up by lia.
      apply progression_head, sweep_count_pos; lia.
    + rewrite sweep_angles_down by lia.
      apply progression_head, sweep_count_pos; lia.
  - split; intros Hdir.
    + rewrite sweep_angles_up in * by lia.
      pose proof (progression_consecutive start step
                    (Z.to_nat ((stop - start) / step + 1))) as Hc.
      repeat split.
      * exact Hc.
      * intros i a b Ha Hb'. rewrite (Hc i a b Ha Hb'). lia.
      * eapply Forall_impl; [|exact Hb]. simpl. lia.
    + rewrite sweep_angles_down in * by lia.
      pose proof (progression_consecutive start (- step)
                    (Z.to_nat ((start - stop) / step + 1))) as Hc.
      repeat split.
      * intros i a b Ha Hb'. rewrite (Hc i a b Ha Hb'). lia.
      * intros i a b Ha Hb'. rewrite (Hc i a b Ha Hb'). lia.
      * eapply Forall_impl; [|exact Hb]. simpl. lia.
Qed.

Lemma sweep_monotone_witness :
  valid_request 45 135 15 (PyInt 1)
  /\ hd_error (commanded (trace (servo_sweep true (PyInt 45) (PyInt 135)
                                   (PyInt 15) (PyInt 1)))) = Some 45.
Proof.
  assert (Hv : valid_request 45 135 15 (PyInt 1)).
  { unfold valid_request. repeat split; try lia; reflexivity. }
  split; [exact Hv|].
  exact (proj1 (proj2 (sweep_monotone true 45 135 15 (PyInt 1) Hv))).
Defined.

(** On ints and finite floats the four fields are examined in the order
    start, stop, step, delay.  When at least one of them is outside its
    domain, where a whole-valued float counts as inside, the run consists
    of exactly one printed line, which names the first offending field and
    shows its value, and then returns: no angle is commanded and no sleep
    takes place.  The non-finite floats escape this: see the sweep on all
    numbers at the end. *)
Theorem sweep_fail_fast (d : bool) (s e st t : pynum) :
  some_invalid s e st t = true ->
  exists f,
    first_invalid s e st t = Some f
    /\ rejected_for f s e st t (servo_sweep d s e st t)
    /\ commanded (trace (servo_sweep d s e st t)) = []
    /\ sleeps (trace (servo_sweep d s e st t)) = [].
Proof.
  intros Hbad. apply some_invalid_first in Hbad. destruct Hbad as [f Hf].
  exists f. pose proof (servo_sweep_rejects d _ _ _ _ _ Hf) as Hr.
  pose proof (rejected_for_quiet _ _ _ _ _ _ Hr) as (Hc & Hs & _).
  auto.
Qed.

Lemma sweep_fail_fast_witness :
  some_invalid (PyInt 90) (PyInt 200) (PyInt 0) (PyInt (-1)) = true
  /\ exists f,
       first_invalid (PyInt 90) (PyInt 200) (PyInt 0) (PyInt (-1)) = Some f
       /\ rejected_for f (PyInt 90) (PyInt 200) (PyInt 0) (PyInt (-1))
            (servo_sweep true (PyInt 90) (PyInt 200) (PyInt 0) (PyInt (-1)))
       /\ commanded (trace (servo_sweep true (PyInt 90) (PyInt 200) (PyInt 0)
                              (PyInt (-1)))) = []
       /\ sleeps (trace (servo_sweep true (PyInt 90) (PyInt 200) (PyInt 0)
                           (PyInt (-1)))) = [].
Proof.
  split; [reflexivity|].
  apply (sweep_fail_fast true (PyInt 90) (PyInt 200) (PyInt 0) (PyInt (-1))).
  reflexivity.
Defined.



(** The two concrete calls named with C5, with the diagnostic each one
    prints: [servo_sweep(0, 10, 20)] and a delay of -0.1 (the double
    nearest to it). *)
Example sweep_0_10_20_rejected (d : bool) :
  servo_sweep d (PyInt 0) (PyInt 10) (PyInt 20) default_step_time
  = ([EPrint [Lit "ERROR: The step_angle value of "; Fmt (PyInt 20);
              Lit " is invalid."]], Returned tt).
Proof. reflexivity. Qed.

Example sweep_negative_delay_rejected (d : bool) :
  servo_sweep d (PyInt 0) (PyInt 180) (PyInt 1)
    (PyFloat (-3602879701896397 # 36028797018963968))
  = ([EPrint [Lit "ERROR: The step_time value of ";
              Fmt (PyFloat (-3602879701896397 # 36028797018963968));
              Lit " is invalid."]], Returned tt).
Proof. reflexivity. Qed.



(** C7 fails on the code: the whole-valued float 90.0 passes every check of
    [servo_sweep(90.0, 180, 1, 0.015)], and [range] then raises
    [TypeError], which escapes the call; no angle has been commanded. *)
Theorem sweep_whole_float_raises :
  first_invalid (PyFloat (90 # 1)) (PyInt 180) (PyInt 1) default_step_time
  = None
  /\ result (servo_sweep true (PyFloat (90 # 1)) (PyInt 180) (PyInt 1)
               default_step_time) = Raised TypeError
  /\ trace (servo_sweep true (PyFloat (90 # 1)) (PyInt 180) (PyInt 1)
              default_step_time)
     = [EPrint (sweep_banner (PyFloat (90 # 1)) (PyInt 180) (PyInt 1)
                  default_step_time)].
Proof. repeat split. Qed.

(** C8: [servo_sweep(45, 135, 15, 1)] commands 45, 60, 75, 90, 105, 120,
    135, seven angles, and sleeps one second after each of them, seven
    times, then returns. *)
Theorem sweep_45_135_by_15 (d : bool) :
  let run := servo_sweep d (PyInt 45) (PyInt 135) (PyInt 15) (PyInt 1) in
  commanded (trace run) = [45; 60; 75; 90; 105; 120; 135]
  /\ List.length (commanded (trace run)) = 7%nat
  /\ sleeps (trace run) = repeat (PyInt 1) 7
  /\ List.length (sleeps (trace run)) = List.length (commanded (trace run))
  /\ effects (trace run)
     = flat_map (fun a => [ESetAngle a; ESleep (PyInt 1)])
         [45; 60; 75; 90; 105; 120; 135]
  /\ result run = Returned tt.
Proof. destruct d; vm_compute; repeat split. Qed.

(** C9: [basic_operations] commands 90, 0, 90, 180 in that order, sleeps
    five seconds after each command, checks nothing and returns. *)
Theorem basic_operations_sequence (d : bool) :
  effects (trace (basic_operations d))
  = [ESetAngle 90; ESleep (PyInt 5); ESetAngle 0; ESleep (PyInt 5);
     ESetAngle 90; ESleep (PyInt 5); ESetAngle 180; ESleep (PyInt 5)]
  /\ commanded (trace (basic_operations d)) = [90; 0; 90; 180]
  /\ sleeps (trace (basic_operations d)) = repeat (PyInt 5) 4
  /\ result (basic_operations d) = Returned tt.
Proof. destruct d; repeat split. Qed.

Lemma basic_operations_run (d : bool) :
  exists tr, basic_operations d = (tr, Returned tt)
             /\ commanded tr = [90; 0; 90; 180].
Proof. destruct d; eexists; split; reflexivity. Qed.

(** C10: every angle the program commands lies in [0, 180]: in
    [basic_operations], in any number of turns of the loop of [main], and
    in every call of [servo_sweep] whatever its arguments; and in a call of
    [servo_sweep] on ints every commanded angle lies between the smaller
    and the larger of [start_angle] and [stop_angle], in both directions
    and whether or not the step divides the span. *)
Theorem commanded_in_range :
  (forall d, Forall (fun a => 0 <= a <= 180)
               (commanded (trace (basic_operations d))))
  /\ (forall d n, Forall (fun a => 0 <= a <= 180)
                    (commanded (trace (main_turns d n))))
  /\ (forall d s e st t, Forall (fun a => 0 <= a <= 180)
                           (commanded (trace (servo_sweep d s e st t))))
  /\ (forall d s e k t,
        Forall (fun a => Z.min s e <= a <= Z.max s e)
          (commanded (trace (servo_sweep d (PyInt s) (PyInt e) (PyInt k) t)))).
Proof.
  assert (Hbasic : forall d, Forall (fun a => 0 <= a <= 180)
                               (commanded (trace (basic_operations d)))).
  { intros d. destruct (basic_operations_run d) as (tr & -> & Htr).
    unfold trace. cbn [fst]. rewrite Htr. repeat constructor; lia. }
  assert (Hint : forall d s e k t,
             Forall (fun a => Z.min s e <= a <= Z.max s e)
               (commanded
                  (trace (servo_sweep d (PyInt s) (PyInt e) (PyInt k) t)))).
  { intros d s e k t.
    destruct (first_invalid (PyInt s) (PyInt e) (PyInt k) t) as [f|] eqn:Hf.
    - apply (servo_sweep_rejects d) in Hf.
      apply rejected_for_quiet in Hf. destruct Hf as (-> & _). constructor.
    - apply first_invalid_int in Hf. rewrite commanded_valid by exact Hf.
      apply sweep_angles_between, Hf. }
  repeat split.
  - exact Hbasic.
  - intros d n. induction n as [|n IH]; [constructor|].
    cbn [main_turns]. specialize (Hbasic d).
    destruct (basic_operations_run d) as (tr & Hrun & Htr).
    rewrite Hrun in *. rewrite bind_run. unfold trace in *. cbn [fst] in *.
    rewrite commanded_app. apply Forall_app. split; assumption.
  - intros d s e st t.
    destruct (first_invalid s e st t) as [f|] eqn:Hf.
    + apply (servo_sweep_rejects d) in Hf.
      apply rejected_for_quiet in Hf. destruct Hf as (-> & _). constructor.
    + destruct (servo_sweep_accepted_run d s e st t Hf)
        as [(a & b & k & -> & -> & -> & Hv) | ->].
      * eapply Forall_impl; [|apply (Hint d a b k t)].
        destruct Hv as (Ha & Hb & _). simpl. lia.
      * destruct d; constructor.
  - exact Hint.
Qed.

(** ** Further properties of the sweep *)

Lemma progression_length (a d : Z) (n : nat) :
  List.length (progression a d n) = n.
Proof. unfold progression. now rewrite length_map, length_seq. Qed.

Lemma progression_snoc (a d : Z) (n : nat) :
  progression a d (S n) = progression a d n ++ [a + Z.of_nat n * d].
Proof. unfold progression. now rewrite seq_S, map_app. Qed.

Lemma progression_cons (a d : Z) (n : nat) :
  progression a d (S n) = a :: progression (a + d) d n.
Proof.
  unfold progression. cbn [seq map]. f_equal; [simpl; lia|].
  rewrite <- seq_shift, map_map. apply map_ext. intros i.
  rewrite Nat2Z.inj_succ. ring.
Qed.

Lemma progression_last (a d : Z) (n : nat) (dflt : Z) :
  last (progression a d (S n)) dflt = a + Z.of_nat n * d.
Proof. rewrite progression_snoc. apply last_last. Qed.

Lemma progression_rev (a d : Z) (n : nat) :
  rev (progression a d n)
  = progression (a + (Z.of_nat n - 1) * d) (- d) n.
Proof.
  induction n as [|n IH]; [reflexivity|].
  rewrite progression_snoc, rev_app_distr. cbn [rev app].
  rewrite IH, progression_cons. f_equal.
  - rewrite Nat2Z.inj_succ. ring.
  - f_equal. rewrite Nat2Z.inj_succ. ring.
Qed.

(** The number of turns of a sweep over [span] degrees. *)
Lemma sweep_turns (span k : Z) :
  1 <= k <= span ->
  exists n, Z.to_nat (span / k + 1) = S n /\ Z.of_nat n = span / k
            /\ (1 <= n)%nat.
Proof.
  intros Hk. assert (0 < span / k) by (apply Z.div_str_pos; lia).
  exists (Z.to_nat (span / k)). repeat split; lia.
Qed.

(** X1: a valid sweep commands [|stop - start| / step + 1] angles, hence
    at least two: the start angle is never the only one. *)
Theorem sweep_count (d : bool) (start stop step : Z) (delay : pynum) :
  valid_request start stop step delay ->
  let angles :=
    commanded (trace (servo_sweep d (PyInt start) (PyInt stop) (PyInt step)
                        delay)) in
  Z.of_nat (List.length angles) = Z.abs (stop - start) / step + 1
  /\ (2 <= List.length angles)%nat.
Proof.
  intros Hv angles. subst angles. rewrite commanded_valid by exact Hv.
  destruct Hv as (_ & _ & Hk & _).
  destruct (Z.lt_trichotomy start stop) as [H|[H|H]]; [| lia |].
  - rewrite sweep_angles_up, progression_length by lia.
    replace (Z.abs (stop - start)) with (stop - start) in * by lia.
    destruct (sweep_turns (stop - start) step Hk) as (n & -> & Hn & Hn1).
    split; lia.
  - rewrite sweep_angles_down, progression_length by lia.
    replace (Z.abs (stop - start)) with (start - stop) in * by lia.
    destruct (sweep_turns (start - stop) step Hk) as (n & -> & Hn & Hn1).
    split; lia.
Qed.

Lemma sweep_count_witness :
  valid_request 180 0 45 (PyInt 1)
  /\ (2 <= List.length
            (commanded (trace (servo_sweep true (PyInt 180) (PyInt 0)
                                 (PyInt 45) (PyInt 1)))))%nat.
Proof.
  assert (Hv : valid_request 180 0 45 (PyInt 1)).
  { unfold valid_request. repeat split; try lia; reflexivity. }
  split; [exact Hv|].
  exact (proj2 (sweep_count true 180 0 45 (PyInt 1) Hv)).
Defined.

(** X2: the last angle of a valid sweep falls short of the stop angle by
    the remainder of the span by the step, which is less than one step:
    the sweep ends on the stop angle exactly when the step divides the
    span. *)
Theorem sweep_last (d : bool) (start stop step : Z) (delay : pynum) :
  valid_request start stop step delay ->
  let final :=
    last (commanded (trace (servo_sweep d (PyInt start) (PyInt stop)
                              (PyInt step) delay))) start in
  Z.abs (stop - final) = Z.abs (stop - start) mod step
  /\ Z.min start stop <= final <= Z.max start stop
  /\ (final = stop <-> Z.abs (stop - start) mod step = 0).
Proof.
  intros Hv final. subst final. rewrite commanded_valid by exact Hv.
  destruct Hv as (_ & _ & Hk & _).
  assert (Hfacts : forall span, 1 <= step <= span ->
             0 <= span mod step < step
             /\ span mod step = span - step * (span / step)).
  { intros span Hs. split; [apply Z.mod_pos_bound; lia|].
    apply Z.mod_eq. lia. }
  destruct (Z.lt_trichotomy start stop) as [H|[H|H]]; [| lia |].
  - rewrite sweep_angles_up by lia.
    replace (Z.abs (stop - start)) with (stop - start) in * by lia.
    destruct (sweep_turns (stop - start) step Hk) as (n & -> & Hn & _).
    rewrite progression_last, Hn.
    destruct (Hfacts (stop - start) Hk) as (Hb & Hm). lia.
  - rewrite sweep_angles_down by lia.
    replace (Z.abs (stop - start)) with (start - stop) in * by lia.
    destruct (sweep_turns (start - stop) step Hk) as (n & -> & Hn & _).
    rewrite progression_last, Hn.
    destruct (Hfacts (start - stop) Hk) as (Hb & Hm). lia.
Qed.

Lemma sweep_last_witness :
  valid_request 0 100 30 (PyInt 0)
  /\ Z.abs (100 - last (commanded
                          (trace (servo_sweep false (PyInt 0) (PyInt 100)
                                    (PyInt 30) (PyInt 0)))) 0)
     = Z.abs (100 - 0) mod 30.
Proof.
  assert (Hv : valid_request 0 100 30 (PyInt 0)).
  { unfold valid_request. repeat split; try lia; reflexivity. }
  split; [exact Hv|].
  exact (proj1 (sweep_last false 0 100 30 (PyInt 0) Hv)).
Defined.

Lemma valid_request_swap (s e k : Z) (t : pynum) :
  valid_request s e k t -> valid_request e s k t.
Proof. unfold valid_request. intros (Hs & He & Hk & Ht). repeat split; try lia; exact Ht. Qed.

(** X3: when the step divides the span, sweeping back from the stop angle
    to the start angle commands the same angles in the opposite order. *)
Theorem sweep_reverse (d : bool) (start stop step : Z) (delay : pynum) :
  valid_request start stop step delay ->
  Z.abs (stop - start) mod step = 0 ->
  commanded (trace (servo_sweep d (PyInt stop) (PyInt start) (PyInt step)
                      delay))
  = rev (commanded (trace (servo_sweep d (PyInt start) (PyInt stop)
                             (PyInt step) delay))).
Proof.
  intros Hv Hdiv.
  rewrite (commanded_valid d stop start) by now apply valid_request_swap.
  rewrite commanded_valid by exact Hv.
  destruct Hv as (_ & _ & Hk & _).
  destruct (Z.lt_trichotomy start stop) as [H|[H|H]]; [| lia |].
  - rewrite (sweep_angles_up start stop), (sweep_angles_down stop start)
      by lia.
    replace (Z.abs (stop - start)) with (stop - start) in * by lia.
    destruct (sweep_turns (stop - start) step Hk) as (n & -> & Hn & _).
    rewrite progression_rev. f_equal.
    rewrite Nat2Z.inj_succ, Hn.
    rewrite Z.mod_eq in Hdiv by lia. lia.
  - rewrite (sweep_angles_down start stop), (sweep_angles_up stop start)
      by lia.
    replace (Z.abs (stop - start)) with (start - stop) in * by lia.
    destruct (sweep_turns (start - stop) step Hk) as (n & -> & Hn & _).
    rewrite progression_rev, Z.opp_involutive. f_equal.
    rewrite Nat2Z.inj_succ, Hn.
    rewrite Z.mod_eq in Hdiv by lia. lia.
Qed.

Lemma sweep_reverse_witness :
  valid_request 45 135 15 (PyInt 1)
  /\ Z.abs (135 - 45) mod 15 = 0
  /\ commanded (trace (servo_sweep true (PyInt 135) (PyInt 45) (PyInt 15)
                         (PyInt 1)))
     = rev (commanded (trace (servo_sweep true (PyInt 45) (PyInt 135)
                                (PyInt 15) (PyInt 1)))).
Proof.
  assert (Hv : valid_request 45 135 15 (PyInt 1)).
  { unfold valid_request. repeat split; try lia; reflexivity. }
  split; [exact Hv|]. split; [reflexivity|].
  apply (sweep_reverse true 45 135 15 (PyInt 1) Hv). reflexivity.
Defined.

(** X4: in a valid sweep the servo events alternate: each commanded angle
    is followed by one sleep of exactly the step time and nothing else, so
    there are as many sleeps as commanded angles. *)
Theorem sweep_alternates (d : bool) (start stop step : Z) (delay : pynum) :
  valid_request start stop step delay ->
  let run := servo_sweep d (PyInt start) (PyInt stop) (PyInt step) delay in
  effects (trace run)
  = flat_map (fun a => [ESetAngle a; ESleep delay]) (commanded (trace run))
  /\ sleeps (trace run) = map (fun _ => delay) (commanded (trace run))
  /\ List.length (sleeps (trace run)) = List.length (commanded (trace run)).
Proof.
  intros Hv run. subst run.
  destruct (effects_valid d start stop step delay Hv) as (He & Hs).
  rewrite He, Hs, commanded_valid by exact Hv.
  repeat split. apply length_map.
Qed.

Lemma sweep_alternates_witness :
  valid_request 0 100 30 default_step_time
  /\ List.length (sleeps (trace (servo_sweep true (PyInt 0) (PyInt 100)
                                   (PyInt 30) default_step_time)))
     = List.length (commanded (trace (servo_sweep true (PyInt 0) (PyInt 100)
                                        (PyInt 30) default_step_time))).
Proof.
  assert (Hv : valid_request 0 100 30 default_step_time).
  { unfold valid_request. repeat split; try lia; reflexivity. }
  split; [exact Hv|].
  exact (proj2 (proj2 (sweep_alternates true 0 100 30 default_step_time Hv))).
Defined.

Lemma effects_banner (d : bool) (m : fstring) :
  effects (if d then [EPrint m] else []) = [].
Proof. now destruct d. Qed.

(** X5: the debug flag changes only what is printed.  For every argument
    list, valid or not, [servo_sweep] performs the same servo commands and
    sleeps and ends the same way whether the flag is set or cleared, and so
    does [basic_operations]. *)
Theorem debug_flag_harmless (d : bool) (s e st t : pynum) :
  effects (trace (servo_sweep d s e st t))
  = effects (trace (servo_sweep false s e st t))
  /\ result (servo_sweep d s e st t) = result (servo_sweep false s e st t)
  /\ effects (trace (basic_operations d))
     = effects (trace (basic_operations false))
  /\ result (basic_operations d) = result (basic_operations false).
Proof.
  assert (Hbasic : effects (trace (basic_operations d))
                   = effects (trace (basic_operations false))
                   /\ result (basic_operations d)
                      = result (basic_operations false))
    by (destruct d; split; reflexivity).
  destruct Hbasic as (Hb1 & Hb2).
  assert (Hsweep : effects (trace (servo_sweep d s e st t))
                   = effects (trace (servo_sweep false s e st t))
                   /\ result (servo_sweep d s e st t)
                      = result (servo_sweep false s e st t)).
  { destruct (first_invalid s e st t) as [f|] eqn:Hf.
    - pose proof (servo_sweep_rejects d _ _ _ _ _ Hf) as H1.
      pose proof (servo_sweep_rejects false _ _ _ _ _ Hf) as H2.
      unfold rejected_for in H1, H2. rewrite H1, H2. split; reflexivity.
    - destruct (servo_sweep_accepted_run d s e st t Hf)
        as [(a & b & k & -> & -> & -> & Hv) | H1].
      + rewrite !servo_sweep_valid by exact Hv. unfold trace, result.
        cbn [fst snd app]. rewrite effects_app, effects_banner.
        rewrite !effects_steps. split; reflexivity.
      + destruct (servo_sweep_accepted_run false s e st t Hf)
          as [(a & b & k & -> & -> & -> & Hv) | H2].
        * rewrite !servo_sweep_valid by exact Hv. unfold trace, result.
          cbn [fst snd app]. rewrite effects_app, effects_banner.
          rewrite !effects_steps. split; reflexivity.
        * rewrite H1, H2. unfold trace, result. cbn [fst snd].
          rewrite effects_banner. split; reflexivity. }
  destruct Hsweep as (Hs1 & Hs2). auto.
Qed.

(** How a call of [servo_sweep] ends on ints and finite floats: it returns
    whenever a field is rejected and whenever the angles and the step are
    ints; [TypeError] escapes exactly when every check passes and the start
    angle, the stop angle or the step is a float.  The non-finite floats
    are treated with the sweep on all numbers at the end. *)
Theorem sweep_result (d : bool) (s e st t : pynum) :
  result (servo_sweep d s e st t)
  = match first_invalid s e st t with
    | Some _ => Returned tt
    | None => if is_float s || is_float e || is_float st
              then Raised TypeError
              else Returned tt
    end.
Proof.
  destruct (first_invalid s e st t) as [f|] eqn:Hf.
  - pose proof (servo_sweep_rejects d _ _ _ _ _ Hf) as H.
    unfold rejected_for in H. now rewrite H.
  - destruct (servo_sweep_accepted_run d s e st t Hf)
      as [(a & b & k & -> & -> & -> & Hv) | H].
    + now rewrite servo_sweep_valid by exact Hv.
    + destruct s as [a|qa], e as [b|qb], st as [k|qk];
        try (rewrite H; reflexivity).
      apply first_invalid_int in Hf.
      now rewrite servo_sweep_valid by exact Hf.
Qed.

(** X7: the check [x != int(x)] tests the value, not the type: a number
    passes it exactly when its value is a whole number, so the float 90.0
    passes like the int 90 and 90.5 does not. *)
Theorem whole_iff (x : pynum) :
  whole x = true <-> exists z : Z, (to_Q x == inject_Z z)%Q.
Proof.
  unfold whole. rewrite Qeq_bool_iff. split.
  - intros H. destruct (py_int x) as [z|q] eqn:Hx.
    + exists z. exact H.
    + destruct x; discriminate.
  - intros [z Hz]. destruct x as [y|[n dn]]; [reflexivity|].
    simpl in *. unfold Qeq in *. simpl in *.
    rewrite Z.mul_1_r in Hz. subst n.
    rewrite Z.quot_mul by discriminate. now rewrite Z.mul_1_r.
Qed.

Lemma printed_steps_debug (t : pynum) (l : list Z) :
  printed (flat_map (step_events true t) l) = map debug_line l.
Proof.
  induction l as [|a l IH]; [reflexivity|].
  cbn [flat_map map]. rewrite printed_app, IH. reflexivity.
Qed.

(** X8: with the debug flag set, a valid sweep prints its banner first and
    then one line per commanded angle, in the order of the commands, and
    nothing else. *)
Theorem sweep_debug_lines (start stop step : Z) (delay : pynum) :
  valid_request start stop step delay ->
  let run := servo_sweep true (PyInt start) (PyInt stop) (PyInt step) delay in
  printed (trace run)
  = sweep_banner (PyInt start) (PyInt stop) (PyInt step) delay
    :: map debug_line (commanded (trace run)).
Proof.
  intros Hv run. subst run. rewrite commanded_valid by exact Hv.
  rewrite servo_sweep_valid by exact Hv. unfold trace. cbn [fst app].
  cbn [printed]. now rewrite printed_steps_debug.
Qed.

Lemma sweep_debug_lines_witness :
  valid_request 180 0 45 (PyInt 1)
  /\ printed (trace (servo_sweep true (PyInt 180) (PyInt 0) (PyInt 45)
                       (PyInt 1)))
     = sweep_banner (PyInt 180) (PyInt 0) (PyInt 45) (PyInt 1)
       :: map debug_line
            (commanded (trace (servo_sweep true (PyInt 180) (PyInt 0)
                                 (PyInt 45) (PyInt 1)))).
Proof.
  assert (Hv : valid_request 180 0 45 (PyInt 1)).
  { unfold valid_request. repeat split; try lia; reflexivity. }
  split; [exact Hv|].
  exact (sweep_debug_lines 180 0 45 (PyInt 1) Hv).
Defined.





(** X10: [sweep_operations] runs its four sweeps without a rejection and
    returns.  It commands 0 up to 180 by 1, then 180 down to 0 by 1, then
    45 up to 135 by 15, then 180 down to 0 by 45, each sweep ending on its
    stop angle: 374 commands and 378 sleeps; with the debug flag cleared
    it prints nothing. *)
Theorem sweep_operations_run (d : bool) :
  result (sweep_operations d) = Returned tt
  /\ commanded (trace (sweep_operations d))
     = progression 0 1 181 ++ progression 180 (-1) 181
       ++ [45; 60; 75; 90; 105; 120; 135] ++ [180; 135; 90; 45; 0]
  /\ List.length (commanded (trace (sweep_operations d))) = 374%nat
  /\ List.length (sleeps (trace (sweep_operations d))) = 378%nat
  /\ printed (trace (sweep_operations false)) = [].
Proof. destruct d; vm_compute; repeat split. Qed.

Lemma basic_operations_returns (d : bool) :
  basic_operations d = (trace (basic_operations d), Returned tt).
Proof. now destruct d. Qed.

Lemma main_turns_S (d : bool) (n : nat) :
  main_turns d (S n)
  = (trace (basic_operations d) ++ trace (main_turns d n),
     result (main_turns d n)).
Proof.
  cbn [main_turns]. rewrite (basic_operations_returns d) at 1.
  exact (bind_run _ tt (fun _ => main_turns d n)).
Qed.

(** X11: after [n] turns of the loop of [main] the program has returned
    from each turn, has commanded [n] times the angles 90, 0, 90, 180 and
    nothing else (it never sweeps), and has slept five seconds [4 * n]
    times; what the first [n] turns did is not changed by the turns that
    follow. *)
Theorem main_turns_run (d : bool) (n : nat) :
  result (main_turns d n) = Returned tt
  /\ commanded (trace (main_turns d n)) = List.concat (repeat [90; 0; 90; 180] n)
  /\ sleeps (trace (main_turns d n)) = repeat (PyInt 5) (4 * n)
  /\ forall m, trace (main_turns d (n + m))
               = trace (main_turns d n) ++ trace (main_turns d m).
Proof.
  induction n as [|n (IHr & IHc & IHs & IHm)].
  - repeat split.
  - rewrite main_turns_S. unfold trace, result in *. cbn [fst snd].
    rewrite commanded_app, sleeps_app, IHc, IHs.
    split; [exact IHr|]. split; [now destruct d|]. split.
    + replace (4 * S n)%nat with (4 + 4 * n)%nat by lia.
      rewrite repeat_app. now destruct d.
    + intros m. cbn [Nat.add]. rewrite main_turns_S.
      unfold trace, result. cbn [fst]. now rewrite IHm, app_assoc.
Qed.

(** ** The sweep on all numbers, non-finite floats included *)

Lemma for_each_ext {A : Type} (l : list A) (f g : A -> Py unit) :
  (forall x, f x = g x) -> for_each l f = for_each l g.
Proof.
  intros Hfg. induction l as [|x l IH]; [reflexivity|].
  cbn [for_each]. now rewrite Hfg, IH.
Qed.

Lemma guard_angle_full (x : pynum) :
  ne_full (Num x) (Num (py_int x))
  || lt_full (Num x) (Num (PyInt 0)) || gt_full (Num x) (Num (PyInt 180))
  = negb (angle_in_domain x).
Proof. exact (guard_angle x). Qed.

Lemma guard_step_full (s e st : pynum) :
  ne_full (Num st) (Num (py_int st))
  || lt_full (Num st) (Num (PyInt 1))
  || gt_full (Num st) (abs_full (sub_full (Num e) (Num s)))
  = negb (step_in_domain s e st).
Proof. exact (guard_step s e st). Qed.

(** On ints and finite floats the sweep on all numbers is [servo_sweep]:
    the same events and the same ending, whatever the host's [sleep]. *)
Lemma servo_sweep_full_finite (host : pyvalue -> Py unit) (d : bool)
  (s e st t : pynum) :
  servo_sweep_full d host (Num s) (Num e) (Num st) (Num t)
  = servo_sweep d s e st t.
Proof.
  unfold servo_sweep_full, servo_sweep.
  cbn [int_full]. rewrite bind_ret_l, guard_angle_full, guard_angle.
  destruct (angle_in_domain s); [|reflexivity]. cbn [negb].
  rewrite bind_ret_l, guard_angle_full, guard_angle.
  destruct (angle_in_domain e); [|reflexivity]. cbn [negb].
  rewrite bind_ret_l, guard_step_full, guard_step.
  destruct (step_in_domain s e st); [|reflexivity]. cbn [negb].
  change (lt_full (Num t) (Num (PyInt 0))) with (py_lt t (PyInt 0)).
  destruct (py_lt t (PyInt 0)); [reflexivity|].
  change (lt_full (Num s) (Num e)) with (py_lt s e).
  destruct (py_lt s e); reflexivity.
Qed.

Lemma sweep_ending_finite (s e st t : pynum) :
  sweep_ending (Num s) (Num e) (Num st) t
  = match first_invalid s e st t with
    | Some _ => Returned tt
    | None => if is_float s || is_float e || is_float st
              then Raised TypeError
              else Returned tt
    end.
Proof.
  unfold sweep_ending, first_invalid.
  destruct (angle_in_domain s), (angle_in_domain e),
    (step_in_domain s e st), (delay_in_domain t); reflexivity.
Qed.

(** C4 fails on the code: a delay of [nan] is not a non-negative number,
    yet it passes the check [step_time < 0], which is false on [nan]: the
    call [servo_sweep(0, 10, 5, nan)] prints no diagnostic and commands the
    angle 0 as its first effect (with the debug flag cleared it is its very
    first event), whatever the host's [sleep] does next.  A [nan] or an
    infinite angle is not reported either: [int()] raises before anything
    is printed. *)
Theorem sweep_nan_delay_actuates (host : pyvalue -> Py unit) (d : bool) :
  le_full (Num (PyInt 0)) NaN = false
  /\ lt_full NaN (Num (PyInt 0)) = false
  /\ hd_error (trace (servo_sweep_full false host (Num (PyInt 0))
                        (Num (PyInt 10)) (Num (PyInt 5)) NaN))
     = Some (ESetAngle 0)
  /\ hd_error (effects (trace (servo_sweep_full d host (Num (PyInt 0))
                                 (Num (PyInt 10)) (Num (PyInt 5)) NaN)))
     = Some (ESetAngle 0)
  /\ servo_sweep_full d host NaN (Num (PyInt 0)) (Num (PyInt 1))
       (Num (PyInt 0)) = ([], Raised ValueError)
  /\ servo_sweep_full d host (Inf false) (Num (PyInt 0)) (Num (PyInt 1))
       (Num (PyInt 0)) = ([], Raised OverflowError).
Proof.
  repeat split.
  - unfold servo_sweep_full, sweep_step_full, sleep_full.
    destruct (host NaN) as [tr [u|ex]]; reflexivity.
  - unfold servo_sweep_full, sweep_step_full, sleep_full.
    destruct (host NaN) as [tr [u|ex]]; destruct d; reflexivity.
Qed.

(** X6: how a call of [servo_sweep] ends, for any start, stop and step,
    non-finite floats included, and any finite delay.  The fields are
    examined in order: a [nan] makes [int()] raise [ValueError] and an
    infinity [OverflowError]; a field outside its domain ends the call with
    a return; when all four checks pass, [TypeError] escapes from [range]
    if the start, the stop or the step is a float, and the call returns if
    all three are ints.  In particular a call on int angles and an int
    step always returns. *)
Theorem sweep_ending_full (host : pyvalue -> Py unit) (d : bool)
  (s e st : pyvalue) (t : pynum) :
  result (servo_sweep_full d host s e st (Num t)) = sweep_ending s e st t
  /\ forall a b c : Z,
       result (servo_sweep_full d host (Num (PyInt a)) (Num (PyInt b))
                 (Num (PyInt c)) (Num t)) = Returned tt.
Proof.
  assert (Hend : forall s e st,
             result (servo_sweep_full d host s e st (Num t))
             = sweep_ending s e st t).
  { clear s e st. intros s e st.
    destruct s as [x|ns|]; [|reflexivity|reflexivity].
    destruct e as [y|ne|], st as [k|nk|];
      try (rewrite servo_sweep_full_finite, sweep_ending_finite;
           apply sweep_result);
      unfold servo_sweep_full, sweep_ending; cbn [int_full];
      rewrite bind_ret_l, guard_angle_full;
      (destruct (angle_in_domain x); [|reflexivity]); cbn [negb];
      try reflexivity;
      rewrite bind_ret_l, guard_angle_full;
      (destruct (angle_in_domain y); [|reflexivity]); reflexivity. }
  split; [apply Hend|].
  intros a b c. rewrite Hend. unfold sweep_ending.
  destruct (angle_in_domain (PyInt a)), (angle_in_domain (PyInt b)),
    (step_in_domain (PyInt a) (PyInt b) (PyInt c)), (delay_in_domain t);
    reflexivity.
Qed.
